(** * axios-jwt-flow: the token life cycle of [lib/index.js]

    A shallow embedding of the OAuth 2.0 JWT bearer token client: the class
    [Client] ([setToken], [isTokenExpired], [fetchToken]), the helper
    [hasNestedProperty] and the axios [requestInterceptor], followed by the
    properties of the token life cycle.

    JavaScript values are embedded as the type [value].  Numbers are the
    integers together with [NaN]: every number the code computes is a whole
    number of seconds plus an option, and integers below 2^53 are exact in
    the language.  Objects are finite maps from property names to values,
    tagged with the class that built them; they are taken not to shadow
    the methods of [Object.prototype] ([hasOwnProperty], [toString],
    [valueOf]).  Objects are immutable here: the one object the code
    shares, the token it stores, returns and hands to [onRefresh], is not
    written after it is stored, and callbacks are taken not to write to it. *)

From Stdlib Require Import Ascii.
From stdpp Require Import gmap strings list fin_maps pretty.

Set Warnings "-register-all".

Local Open Scope Z_scope.

(** ** Values *)

Inductive value : Type :=
| VUndef
| VNull
| VBool (b : bool)
| VNum (n : Z)
| VNaN
| VStr (s : string)
| VObj (cls : string) (fields : gmap string value).

(** An object literal [{...}]. *)
Definition plain (o : gmap string value) : value := VObj "Object" o.

(** ** Conversions and operators of the language *)

(** [ToBoolean]: what [if], [&&] and [||] test. *)
Definition truthy (v : value) : bool :=
  match v with
  | VUndef | VNull | VNaN => false
  | VBool b => b
  | VNum n => negb (Z.eqb n 0)
  | VStr s => negb (String.eqb s "")
  | VObj _ _ => true
  end.

(** [a || b] *)
Definition js_or (a b : value) : value := if truthy a then a else b.

(** [typeof v]; no value of this development is a function. *)
Definition typeof (v : value) : string :=
  match v with
  | VUndef => "undefined"
  | VNull | VObj _ _ => "object"
  | VBool _ => "boolean"
  | VNum _ | VNaN => "number"
  | VStr _ => "string"
  end.

(** [o[k]] on the fields of an object: a missing property reads
    [undefined]. *)
Definition field (o : gmap string value) (k : string) : value :=
  default VUndef (o !! k).

(** [v[k]] for a value other than [undefined] and [null] (those throw, see
    [read]).  Of a primitive the program only reads names that its
    prototype does not define, hence [undefined]. *)
Definition get (v : value) (k : string) : value :=
  match v with
  | VObj _ o => field o k
  | _ => VUndef
  end.

(** [o.hasOwnProperty(k)] of an object. *)
Definition has_own (o : gmap string value) (k : string) : bool :=
  bool_decide (is_Some (o !! k)).

Definition to_string_prim (v : value) : string :=
  match v with
  | VUndef => "undefined"
  | VNull => "null"
  | VBool true => "true"
  | VBool false => "false"
  | VNum n => pretty n
  | VNaN => "NaN"
  | VStr s => s
  | VObj _ _ => "[object Object]"
  end.

(** The [name] an instance of class [cls] inherits: the classes of
    [lib/index.js] extend [Error] without renaming it. *)
Definition error_name (cls : string) : string :=
  if decide (cls = "TypeError") then "TypeError" else "Error".

(** [ToString]: [Object.prototype.toString] for a plain object,
    [Error.prototype.toString] for an instance of an error class. *)
Definition to_string (v : value) : string :=
  match v with
  | VObj cls o =>
      if decide (cls = "Object") then "[object Object]"
      else
        let msg := match o !! "message" with
                   | Some m => to_string_prim m
                   | None => ""
                   end in
        if decide (msg = "") then error_name cls
        else error_name cls +:+ ": " +:+ msg
  | _ => to_string_prim v
  end.

(** [ToPrimitive]: the [valueOf] of an object is the object, so its
    string. *)
Definition to_primitive (v : value) : value :=
  match v with
  | VObj _ _ => VStr (to_string v)
  | _ => v
  end.

Fixpoint digits (s : string) (acc : Z) : option Z :=
  match s with
  | "" => Some acc
  | String c s' =>
      match Ascii.is_nat c with
      | Some d => digits s' (10 * acc + Z.of_nat d)
      | None => None
      end
  end.

Fixpoint trim_left (s : string) : string :=
  match s with
  | String c s' => if Ascii.is_space c then trim_left s' else s
  | "" => ""
  end.

Definition trim (s : string) : string :=
  String.rev (trim_left (String.rev (trim_left s))).

(** [StringToNumber] on the integers: blank is [0], a signed run of decimal
    digits is its value, anything else is [NaN] ([None]). *)
Definition string_to_number (s : string) : option Z :=
  match trim s with
  | "" => Some 0
  | String "-"%char (String _ _ as d) => Z.opp <$> digits d 0
  | String "+"%char (String _ _ as d) => digits d 0
  | d => digits d 0
  end.

(** [ToNumber]; [None] is [NaN]. *)
Definition to_number (v : value) : option Z :=
  match to_primitive v with
  | VNull => Some 0
  | VBool b => Some (if b then 1 else 0)
  | VNum n => Some n
  | VStr s => string_to_number s
  | _ => None
  end.

Definition is_str (v : value) : bool :=
  match v with VStr _ => true | _ => false end.

(** [a + b]: concatenation as soon as one side is a string, else a sum. *)
Definition js_add (a b : value) : value :=
  let pa := to_primitive a in
  let pb := to_primitive b in
  if is_str pa || is_str pb then VStr (to_string pa +:+ to_string pb)
  else match to_number pa, to_number pb with
       | Some x, Some y => VNum (x + y)
       | _, _ => VNaN
       end.

(** [a >= b]: two strings compare by code units, otherwise the numbers
    compare, and a [NaN] on either side makes it false. *)
Definition js_ge (a b : value) : bool :=
  match to_primitive a, to_primitive b with
  | VStr x, VStr y => negb (String.ltb x y)
  | pa, pb =>
      match to_number pa, to_number pb with
      | Some x, Some y => bool_decide (y ≤ x)
      | _, _ => false
      end
  end.

(** [v === s] for a string literal [s]. *)
Definition strict_eq_str (v : value) (s : string) : bool :=
  match v with
  | VStr x => bool_decide (x = s)
  | _ => false
  end.

(** [Math.floor(ms / 1000)] of a date in milliseconds. *)
Definition floor_seconds (ms : Z) : Z := ms `div` 1000.

(** [new C(message)] for [C] a subclass of [Error]: the instance owns a
    [message] only when one is given, and then as a string. *)
Definition new_error (cls : string) (message : value) : value :=
  match message with
  | VUndef => VObj cls ∅
  | _ => VObj cls {[ "message" := VStr (to_string message) ]}
  end.

(** A [TypeError] of the runtime. *)
Definition type_error (message : string) : value :=
  new_error "TypeError" (VStr message).

(** [{...v}]: the own properties an object spread copies.  A string spreads
    into its characters under their indices; other primitives own nothing. *)
Fixpoint spread_string (i : nat) (s : string) : gmap string value :=
  match s with
  | String c s' => <[pretty i := VStr (String c "")]> (spread_string (S i) s')
  | "" => ∅
  end.

Definition spread (v : value) : gmap string value :=
  match v with
  | VObj _ o => o
  | VStr s => spread_string 0 s
  | _ => ∅
  end.

(** ** Results and [hasNestedProperty] *)

Inductive result (A : Type) : Type :=
| Ok (a : A)
| Raise (e : value).
Arguments Ok {A} a.
Arguments Raise {A} e.

(** [hasNestedProperty(obj, ...args)].  [typeof null] is ["object"], so the
    guard lets [null] through and the method call on it throws. *)
Fixpoint hasNestedProperty (obj : value) (args : list string) : result bool :=
  match args with
  | [] => Ok true
  | arg :: args' =>
      if negb (String.eqb (typeof obj) "object") then Ok false
      else
        match obj with
        | VObj _ o =>
            if negb (has_own o arg) then Ok false
            else hasNestedProperty (field o arg) args'
        | _ =>
            Raise (type_error
                     "Cannot read properties of null (reading 'hasOwnProperty')")
        end
  end.

(** ** The client object *)

(** A consumer callback: [None] when it returns, [Some e] when it throws
    [e].  What it returns is ignored by the caller. *)
Definition callback : Type := value → option value.

Record Client : Type := mkClient {
  token : value;
  onRefresh : option callback;
  options : gmap string value
}.

(** [setToken(token)] *)
Definition setToken (t : value) (this : Client) : Client :=
  {| token := js_or t (plain ∅);
     onRefresh := onRefresh this;
     options := options this |}.

(** [new Client({ token, onRefresh, ...options })]; the axios instance it
    creates carries the client as [oauthClient] and is not embedded. *)
Definition new_Client (t : value) (cb : option callback)
    (opts : gmap string value) : Client :=
  setToken t
    {| token := VUndef;
       onRefresh := cb;
       options :=
         <["expiryLeeway" := js_or (field opts "expiryLeeway") (VNum 5)]>
           (<["expiresIn" := js_or (field opts "expiresIn") (VNum (60 * 5))]>
              opts) |}.

(** ** Programs

    The code of the client runs over three things outside itself: the clock
    ([new Date()]), the lock of the module ([async-lock]) and the network
    ([axios.post]).  A program is a tree of such requests, with the reads
    and writes of the client object; [Throw] is a thrown exception and a
    rejected promise alike. *)

Inductive outcome : Type :=
| Resolved (response : value)
| Rejected (error : value).

Inductive prog (A : Type) : Type :=
| Ret (a : A)
| Throw (e : value)
| NewDate (k : Z → prog A)
| ReadClient (k : Client → prog A)
| Update (f : Client → Client) (k : prog A)
| Acquire (k : prog A)
| Release (k : prog A)
| Post (url : value) (body : gmap string value) (k : outcome → prog A).
Arguments Ret {A} a.
Arguments Throw {A} e.
Arguments NewDate {A} k.
Arguments ReadClient {A} k.
Arguments Update {A} f k.
Arguments Acquire {A} k.
Arguments Release {A} k.
Arguments Post {A} url body k.

Fixpoint bind {A B : Type} (p : prog A) (f : A → prog B) : prog B :=
  match p with
  | Ret a => f a
  | Throw e => Throw e
  | NewDate k => NewDate (λ t, bind (k t) f)
  | ReadClient k => ReadClient (λ c, bind (k c) f)
  | Update g k => Update g (bind k f)
  | Acquire k => Acquire (bind k f)
  | Release k => Release (bind k f)
  | Post url body k => Post url body (λ o, bind (k o) f)
  end.

#[global] Instance prog_ret : MRet prog := @Ret.
#[global] Instance prog_bind : MBind prog := λ A B f p, bind p f.

(** [p.catch(h)] *)
Fixpoint try_catch {A : Type} (p : prog A) (h : value → prog A) : prog A :=
  match p with
  | Ret a => Ret a
  | Throw e => h e
  | NewDate k => NewDate (λ t, try_catch (k t) h)
  | ReadClient k => ReadClient (λ c, try_catch (k c) h)
  | Update g k => Update g (try_catch k h)
  | Acquire k => Acquire (try_catch k h)
  | Release k => Release (try_catch k h)
  | Post url body k => Post url body (λ o, try_catch (k o) h)
  end.

(** Run [p] and give the lock back when it settles, either way. *)
Fixpoint release_after {A : Type} (p : prog A) : prog A :=
  match p with
  | Ret a => Release (Ret a)
  | Throw e => Release (Throw e)
  | NewDate k => NewDate (λ t, release_after (k t))
  | ReadClient k => ReadClient (λ c, release_after (k c))
  | Update g k => Update g (release_after k)
  | Acquire k => Acquire (release_after k)
  | Release k => Release (release_after k)
  | Post url body k => Post url body (λ o, release_after (k o))
  end.

(** [lock.acquire(key, fn, {})] in promise mode: wait for the lock, run
    [fn] holding it, release it when [fn] settles and settle alike.  The
    key is one string for the whole module, hence one lock. *)
Definition lock_acquire {A : Type} (fn : prog A) : prog A :=
  Acquire (release_after fn).

(** [new Date()], in milliseconds *)
Definition new_Date : prog Z := NewDate Ret.

(** The client object: [this] in a method, [oauthClient] in the
    interceptor. *)
Definition the_client : prog Client := ReadClient Ret.

(** [v[k]] as an expression: reading from [undefined] or [null] throws. *)
Definition read (v : value) (k : string) : prog value :=
  match v with
  | VUndef | VNull =>
      Throw (type_error ("Cannot read properties of " +:+ to_string_prim v))
  | _ => Ret (get v k)
  end.

(** [v[k] = x] in strict mode; the object with the property written. *)
Definition assign (v : value) (k : string) (x : value) : prog value :=
  match v with
  | VObj cls o => Ret (VObj cls (<[k := x]> o))
  | VUndef | VNull =>
      Throw (type_error ("Cannot set properties of " +:+ to_string_prim v))
  | _ => Throw (type_error ("Cannot create property on " +:+ typeof v))
  end.

(** [await axios.post(url, body)] *)
Definition post (url : value) (body : gmap string value) : prog value :=
  Post url body (λ o,
    match o with
    | Resolved response => Ret response
    | Rejected error => Throw error
    end).

(** ** Methods of [Client] *)

(** The value of [isTokenExpired()] once the clock and the fields are read. *)
Definition expired_at (leeway expires_at : value) (now : Z) : bool :=
  js_ge (js_add (VNum (floor_seconds now)) leeway) expires_at.

(** [isTokenExpired()] *)
Definition isTokenExpired : prog bool :=
  now ← new_Date;
  this ← the_client;
  expires_at ← read (token this) "expires_at";
  mret (expired_at (field (options this) "expiryLeeway") expires_at now).

(** [jws.sign({ header: { alg: 'RS256' }, payload, privateKey })], given
    the payload and the key: the compact assertion, or the exception the
    signer throws. *)
Definition signer : Type := gmap string value → value → result value.

(** The [.then] of [fetchToken()]. *)
Definition on_response (expiresAt response : value) : prog value :=
  token0 ← read response "data";
  held ← read token0 "expires_at";
  token1 ← assign token0 "expires_at" (js_or held expiresAt);
  Update (setToken token1) (mret token1).

(** The [.catch] of [fetchToken()]. *)
Definition on_error (error : value) : prog value :=
  match hasNestedProperty error ["response"; "data"; "error"] with
  | Raise e => Throw e
  | Ok true =>
      let data := get (get error "response") "data" in
      if strict_eq_str (get data "error") "invalid_grant"
      then Throw (new_error "InvalidGrant" (get data "error_description"))
      else Throw error
  | Ok false => Throw error
  end.

(** [fetchToken()].  The body handed to [axios.post] is kept as the object
    given to [querystring.stringify]. *)
Definition fetchToken (jws_sign : signer) : prog value :=
  now ← new_Date;
  this ← the_client;
  let expiresAt :=
    js_add (VNum (floor_seconds now)) (field (options this) "expiresIn") in
  let url :=
    js_add (field (options this) "tokenHost")
           (field (options this) "tokenPath") in
  match jws_sign (<["exp" := expiresAt]> (spread (field (options this) "payload")))
                 (field (options this) "privateKey") with
  | Raise e => Throw e
  | Ok assertion =>
      try_catch
        (post url
           {[ "grant_type" := VStr "urn:ietf:params:oauth:grant-type:jwt-bearer";
              "assertion" := assertion ]}
         ≫= on_response expiresAt)
        on_error
  end.

(** ** The request interceptor *)

(** The function handed to [lock.acquire]. *)
Definition refresh (jws_sign : signer) : prog value :=
  expired ← isTokenExpired;
  if (expired : bool) then fetchToken jws_sign else mret VUndef.

(** [token && oauthClient.onRefresh && oauthClient.onRefresh(token)] *)
Definition notify (token1 : value) : prog unit :=
  if truthy token1 then
    oauthClient ← the_client;
    match onRefresh oauthClient with
    | Some f =>
        match f token1 with
        | Some e => Throw e
        | None => mret ()
        end
    | None => mret ()
    end
  else mret ().

(** The object literal the interceptor returns, given the three fields of
    the token it reads. *)
Definition with_credentials (config : gmap string value)
    (instance_url token_type access_token : value) : value :=
  plain
    (<["headers" :=
         plain (<["Authorization" :=
                    VStr (to_string token_type +:+ " " +:+ to_string access_token)]>
                  (spread (field config "headers")))]>
       (<["baseURL" := instance_url]> config)).

(** The [return] of the interceptor. *)
Definition authorize (config : gmap string value) : prog value :=
  oauthClient ← the_client;
  instance_url ← read (token oauthClient) "instance_url";
  token_type ← read (token oauthClient) "token_type";
  access_token ← read (token oauthClient) "access_token";
  mret (with_credentials config instance_url token_type access_token).

(** The branch of the interceptor that refreshes. *)
Definition refresh_locked (jws_sign : signer) : prog unit :=
  token1 ← lock_acquire (refresh jws_sign);
  notify token1.

(** [requestInterceptor({ oauthClient, ...config })]: [oauthClient] is the
    client the programs read and write, [config] the rest of the argument. *)
Definition requestInterceptor (jws_sign : signer)
    (config : gmap string value) : prog value :=
  expired ← isTokenExpired;
  (if (expired : bool) then
     oauthClient ← the_client;
     if truthy (field (options oauthClient) "autoRefresh")
     then refresh_locked jws_sign
     else Throw (new_error "TokenExpired" (VStr "Token is expired"))
   else mret ());;
  authorize config.

(** ** Running programs

    The runtime runs one piece of code at a time, up to the point where it
    has to wait: for the lock, or for the network.  [run] is one such
    stretch, at the date [now]; the clock does not move within a stretch. *)

Record machine : Type := mkMachine {
  m_client : Client;
  m_locked : bool;
  m_calls : list (value * gmap string value)
}.

Inductive task (A : Type) : Type :=
| Done (r : result A)
| Blocked (p : prog A)
| InFlight (k : outcome → prog A).
Arguments Done {A} r.
Arguments Blocked {A} p.
Arguments InFlight {A} k.

Definition update (f : Client → Client) (m : machine) : machine :=
  {| m_client := f (m_client m);
     m_locked := m_locked m;
     m_calls := m_calls m |}.

Definition set_locked (b : bool) (m : machine) : machine :=
  {| m_client := m_client m; m_locked := b; m_calls := m_calls m |}.

Definition log_call (url : value) (body : gmap string value)
    (m : machine) : machine :=
  {| m_client := m_client m;
     m_locked := m_locked m;
     m_calls := m_calls m ++ [(url, body)] |}.

Fixpoint run {A : Type} (now : Z) (m : machine) (p : prog A)
  : machine * task A :=
  match p with
  | Ret a => (m, Done (Ok a))
  | Throw e => (m, Done (Raise e))
  | NewDate k => run now m (k now)
  | ReadClient k => run now m (k (m_client m))
  | Update f k => run now (update f m) k
  | Acquire k =>
      if m_locked m then (m, Blocked p)
      else run now (set_locked true m) k
  | Release k => run now (set_locked false m) k
  | Post url body k => (log_call url body m, InFlight k)
  end.

(** The arrival of the endpoint's answer for a stretch that ended with a
    call in flight: the next stretch of that request, at the date [now]. *)
Definition settle {A : Type} (now : Z) (o : outcome)
    (r : machine * task A) : machine * task A :=
  match r.2 with
  | InFlight k => run now r.1 (k o)
  | _ => r
  end.

(** A request is dispatched to the target API once the interceptor has
    returned its configuration. *)
Definition dispatched {A : Type} (t : task A) : bool :=
  match t with Done (Ok _) => true | _ => false end.


(** ** Concurrent requests

    Requests through one client share its token, the lock and the network.
    A world is the machine and the requests issued so far, each either
    settled, waiting for the lock, or waiting for the token endpoint.  An
    event runs one stretch of one request: a new request enters the
    interceptor, a waiting one is woken to try the lock, or the answer of
    the endpoint arrives for one in flight.  An event that does not apply
    leaves the world as it is. *)

Record world : Type := mkWorld {
  w_machine : machine;
  w_tasks : list (task value)
}.

Inductive event : Type :=
| Issue (now : Z) (config : gmap string value)
| Wake (now : Z) (i : nat)
| Settle (now : Z) (i : nat) (o : outcome).

Definition step (jws_sign : signer) (w : world) (e : event) : world :=
  match e with
  | Issue now config =>
      let r := run now (w_machine w) (requestInterceptor jws_sign config) in
      {| w_machine := r.1; w_tasks := w_tasks w ++ [r.2] |}
  | Wake now i =>
      match w_tasks w !! i with
      | Some (Blocked p) =>
          let r := run now (w_machine w) p in
          {| w_machine := r.1; w_tasks := <[i := r.2]> (w_tasks w) |}
      | _ => w
      end
  | Settle now i o =>
      match w_tasks w !! i with
      | Some (InFlight k) =>
          let r := run now (w_machine w) (k o) in
          {| w_machine := r.1; w_tasks := <[i := r.2]> (w_tasks w) |}
      | _ => w
      end
  end.

Definition steps (jws_sign : signer) (w : world) (evs : list event) : world :=
  foldl (step jws_sign) w evs.

(** A client at rest: nobody holds the lock, nothing was sent. *)
Definition start (c : Client) : world :=
  {| w_machine := {| m_client := c; m_locked := false; m_calls := [] |};
     w_tasks := [] |}.





(** ** The pieces of a request

    The programs above in the terms the properties speak in: each is shown
    below to be what [run] makes of the code. *)

(** [isTokenExpired()] as a function of the client and the date: it throws
    when there is no token object to read. *)
Definition token_check (c : Client) (now : Z) : result bool :=
  match token c with
  | (VUndef | VNull) as t =>
      Raise (type_error ("Cannot read properties of " +:+ to_string_prim t))
  | t => Ok (expired_at (field (options c) "expiryLeeway")
                        (get t "expires_at") now)
  end.

(** The [return] of the interceptor as a function of the client. *)
Definition credentials_of (c : Client) (config : gmap string value)
  : result value :=
  match token c with
  | (VUndef | VNull) as t =>
      Raise (type_error ("Cannot read properties of " +:+ to_string_prim t))
  | t => Ok (with_credentials config (get t "instance_url")
               (get t "token_type") (get t "access_token"))
  end.

(** What calling back does to the request: nothing, unless the callback
    throws. *)
Definition notified (c : Client) (token1 : value) : result unit :=
  if truthy token1 then
    match onRefresh c with
    | Some f =>
        match f token1 with
        | Some e => Raise e
        | None => Ok ()
        end
    | None => Ok ()
    end
  else Ok ().

(** The call [fetchToken()] sends at the date [now], unless the signer
    throws. *)
Definition request_of (jws_sign : signer) (now : Z) (this : Client)
  : result (value * gmap string value) :=
  match jws_sign
          (<["exp" := js_add (VNum (floor_seconds now))
                        (field (options this) "expiresIn")]>
             (spread (field (options this) "payload")))
          (field (options this) "privateKey") with
  | Raise e => Raise e
  | Ok assertion =>
      Ok (js_add (field (options this) "tokenHost")
                 (field (options this) "tokenPath"),
          {[ "grant_type" := VStr "urn:ietf:params:oauth:grant-type:jwt-bearer";
             "assertion" := assertion ]})
  end.


(** [fetchToken()] from the answer of the endpoint on: the [.then] and the
    [.catch] chained on the promise of [axios.post]. *)
Definition answered (expiresAt : value) (o : outcome) : prog value :=
  try_catch
    (match o with
     | Resolved response => Ret response
     | Rejected error => Throw error
     end ≫= on_response expiresAt)
    on_error.

(** The interceptor from the lock on: what a request that found the token
    expired, under [autoRefresh], still has to do. *)
Definition waiting (jws_sign : signer) (config : gmap string value)
  : prog value :=
  refresh_locked jws_sign;; authorize config.

(** The interceptor from the answer of the endpoint on, for the request
    whose [fetchToken()] is in flight. *)
Definition landing (config : gmap string value) (expiresAt : value)
    (o : outcome) : prog value :=
  (release_after (answered expiresAt o) ≫= notify);; authorize config.

(** How a stretch goes on after its first part: the shapes of [run] on
    [≫=], [try_catch] and [release_after]. *)
Definition and_then {A B : Type} (now : Z) (r : machine * task A)
    (f : A → prog B) : machine * task B :=
  match r.2 with
  | Done (Ok a) => run now r.1 (f a)
  | Done (Raise e) => (r.1, Done (Raise e))
  | Blocked p => (r.1, Blocked (p ≫= f))
  | InFlight k => (r.1, InFlight (λ o, k o ≫= f))
  end.

Definition or_else {A : Type} (now : Z) (r : machine * task A)
    (h : value → prog A) : machine * task A :=
  match r.2 with
  | Done (Ok a) => (r.1, Done (Ok a))
  | Done (Raise e) => run now r.1 (h e)
  | Blocked p => (r.1, Blocked (try_catch p h))
  | InFlight k => (r.1, InFlight (λ o, try_catch (k o) h))
  end.

Definition and_release {A : Type} (r : machine * task A) : machine * task A :=
  match r.2 with
  | Done x => (set_locked false r.1, Done x)
  | Blocked p => (r.1, Blocked (release_after p))
  | InFlight k => (r.1, InFlight (λ o, release_after (k o)))
  end.

(** A program is calm when it neither waits nor touches the lock or the
    network: a stretch runs it to its end. *)
Definition calm {A : Type} (p : prog A) : Prop :=
  ∀ now m, ∃ m' r,
    run now m p = (m', Done r) ∧
    m_locked m' = m_locked m ∧ m_calls m' = m_calls m.

(** A continuation settles the call in flight when, whatever the endpoint
    answers, it runs to its end, gives the lock back and sends nothing. *)
Definition settles {A : Type} (k : outcome → prog A) : Prop :=
  ∀ now m o, ∃ m' r,
    run now m (k o) = (m', Done r) ∧
    m_locked m' = false ∧ m_calls m' = m_calls m.

(** A program waits for the lock when a stretch leaves it as it is while
    the lock is taken and, once the lock is free, either runs it to its end
    with the lock free again, or takes the lock and sends one call. *)
Definition waits {A : Type} (p : prog A) : Prop :=
  ∀ now m,
    if m_locked m then run now m p = (m, Blocked p)
    else
      (∃ m' r, run now m p = (m', Done r) ∧
               m_locked m' = false ∧ m_calls m' = m_calls m) ∨
      (∃ m' k, run now m p = (m', InFlight k) ∧
               m_locked m' = true ∧ settles k).






(** ** Examples *)

Definition token_2000 : value :=
  plain {[ "access_token" := VStr "abc"; "token_type" := VStr "Bearer";
           "instance_url" := VStr "https://x"; "expires_at" := VNum 2000 ]}.

Definition token_3300 : value :=
  plain {[ "access_token" := VStr "new"; "token_type" := VStr "Bearer";
           "instance_url" := VStr "https://y"; "expires_at" := VNum 3300 ]}.

(** A signer without a key, and one that signs. *)
Definition no_signer : signer := λ _ _, Raise (VStr "no key").
Definition sign_ok : signer := λ _ _, Ok (VStr "jwt").

Definition auto_options : gmap string value :=
  {[ "autoRefresh" := VBool true;
     "tokenHost" := VStr "https://test.salesforce.com";
     "tokenPath" := VStr "/services/oauth2/token";
     "payload" := plain {[ "iss" := VStr "0123456789" ]} ]}.

Definition client_2000 : Client := new_Client token_2000 None auto_options.

(** Machines: without [autoRefresh]; with it; with it and the lock taken;
    with it after a refresh. *)
Definition manual_2000 : machine :=
  mkMachine (new_Client token_2000 None ∅) false [].
Definition auto_2000 : machine := mkMachine client_2000 false [].
Definition busy_2000 : machine := mkMachine client_2000 true [].
Definition refreshed_3300 : machine :=
  mkMachine (new_Client token_3300 None auto_options) false [].

Definition config_a : gmap string value :=
  {[ "url" := VStr "/services/apexrest/myservice";
     "headers" := plain {[ "Accept" := VStr "application/json" ]} ]}.

Definition config_b : gmap string value :=
  {[ "url" := VStr "/services/apexrest/other" ]}.

Definition network_error : value :=
  VObj "Error" {[ "message" := VStr "Network Error"; "response" := VUndef ]}.

(** A failed request whose response has the JSON body [null]. *)
Definition error_with_null_body : value :=
  VObj "Error"
    {[ "message" := VStr "Request failed with status code 500";
       "response" := plain {[ "status" := VNum 500; "data" := VNull ]} ]}.

Definition data_without_expiry : gmap string value :=
  {[ "access_token" := VStr "abc"; "token_type" := VStr "Bearer";
     "instance_url" := VStr "https://x" ]}.

Definition response_without_expiry : value :=
  plain {[ "status" := VNum 200; "data" := plain data_without_expiry ]}.

Definition response_expiring_at_0 : value :=
  plain {[ "status" := VNum 200;
           "data" := plain (<["expires_at" := VNum 0]> data_without_expiry) ]}.

Definition token_endpoint_call : value * gmap string value :=
  (VStr "https://test.salesforce.com/services/oauth2/token",
   {[ "grant_type" := VStr "urn:ietf:params:oauth:grant-type:jwt-bearer";
      "assertion" := VStr "jwt" ]}).


(** Two requests find the token expired; the call of the first fails, the
    second is woken and its own call succeeds. *)
Definition failed_round : list event :=
  [ Issue 3000000 config_a;
    Issue 3000001 config_b;
    Settle 3000500 0 (Rejected network_error);
    Wake 3000501 1;
    Settle 3000900 1 (Resolved response_without_expiry) ].

(** ** Paths, shapes and counts *)


(** The requests of a world are stretches of the interceptor: one that
    waits holds [waiting], one in flight holds [landing]. *)
Definition shaped (jws_sign : signer) (t : task value) : Prop :=
  match t with
  | Done _ => True
  | Blocked p => ∃ config, p = waiting jws_sign config
  | InFlight k => ∃ config expiresAt, k = landing config expiresAt
  end.

Definition is_blocked {A : Type} (t : task A) : bool :=
  match t with Blocked _ => true | _ => false end.

Definition blocked_weight {A : Type} (t : task A) : nat :=
  if is_blocked t then 1 else 0.

(** The number of requests waiting for the lock. *)
Definition count_blocked (l : list (task value)) : nat :=
  sum_list (blocked_weight <$> l).

Definition is_issue (e : event) : bool :=
  match e with Issue _ _ => true | _ => false end.

(** The number of requests issued by a run of events. *)
Definition issued (evs : list event) : nat :=
  length (filter (λ e, is_issue e = true) evs).

(** The world after two requests found the token expired and the call of
    the first failed: the second still waits, nothing is in flight. *)
Definition after_failure : world :=
  steps sign_ok (start client_2000) (take 3 failed_round).

(** What a stretch of a request that has no call in flight leaves: the
    client as it was, a request of the interceptor, and at most one more
    call, none if it still waits. *)
Definition tidy (jws_sign : signer) (m : machine)
    (r : machine * task value) : Prop :=
  m_client r.1 = m_client m ∧
  shaped jws_sign r.2 ∧
  (length (m_calls r.1) + blocked_weight r.2 ≤ S (length (m_calls m)))%nat.

(** What every world reached from a client [c] at rest keeps: its requests
    are stretches of the interceptor, the options and the callback are
    those of [c], and the calls sent are at most the requests that are not
    waiting. *)
Definition orderly (jws_sign : signer) (c : Client) (w : world) : Prop :=
  Forall (shaped jws_sign) (w_tasks w) ∧
  options (m_client (w_machine w)) = options c ∧
  onRefresh (m_client (w_machine w)) = onRefresh c ∧
  (length (m_calls (w_machine w)) + count_blocked (w_tasks w)
   ≤ length (w_tasks w))%nat.

(** More examples. *)






Definition response_with_text : value :=
  plain {[ "status" := VNum 200; "data" := VStr "<html>maintenance</html>" ]}.

(** A callback that throws. *)
Definition failing_callback : callback := λ _, Some (VStr "disk full").

Definition client_with_failing_callback : Client :=
  new_Client token_2000 (Some failing_callback) auto_options.

(** A token without [expires_at]. *)
Definition token_without_expiry : value := plain data_without_expiry.

(** * Properties *)

Arguments isTokenExpired : simpl never.
Arguments fetchToken : simpl never.
Arguments refresh : simpl never.
Arguments notify : simpl never.
Arguments authorize : simpl never.
Arguments refresh_locked : simpl never.
Arguments requestInterceptor : simpl never.

Ltac unmonad := unfold mbind, mret, prog_bind, prog_ret in *.

(** ** Stretches of composed programs *)

Section run_shapes.
Context {A B : Type}.

Lemma run_bind now m (p : prog A) (f : A → prog B) :
  run now m (p ≫= f) = and_then now (run now m p) f.
Proof.
  unmonad. revert m.
  induction p as [a|e|k IH|k IH|g k IH|k IH|k IH|url body k IH];
    intros m; simpl; try done; try apply IH.
  destruct (m_locked m); [done|]. apply IH.
Qed.

Lemma run_try_catch now m (p : prog A) (h : value → prog A) :
  run now m (try_catch p h) = or_else now (run now m p) h.
Proof.
  revert m.
  induction p as [a|e|k IH|k IH|g k IH|k IH|k IH|url body k IH];
    intros m; simpl; try done; try apply IH.
  destruct (m_locked m); [done|]. apply IH.
Qed.

Lemma run_release_after now m (p : prog A) :
  run now m (release_after p) = and_release (run now m p).
Proof.
  revert m.
  induction p as [a|e|k IH|k IH|g k IH|k IH|k IH|url body k IH];
    intros m; simpl; try done; try apply IH.
  destruct (m_locked m); [done|]. apply IH.
Qed.

Lemma and_then_ok now m (a : A) (f : A → prog B) :
  and_then now (m, Done (Ok a)) f = run now m (f a).
Proof. done. Qed.

Lemma and_then_raise now m e (f : A → prog B) :
  and_then now (m, Done (Raise e)) f = (m, Done (Raise e)).
Proof. done. Qed.

Lemma and_then_in_flight now m k (f : A → prog B) :
  and_then now (m, InFlight k) f = (m, InFlight (λ o, k o ≫= f)).
Proof. done. Qed.

Lemma and_release_done m (x : result A) :
  and_release (m, Done x) = (set_locked false m, Done x).
Proof. done. Qed.

Lemma and_release_in_flight m (k : outcome → prog A) :
  and_release (m, InFlight k) = (m, InFlight (λ o, release_after (k o))).
Proof. done. Qed.

End run_shapes.

Lemma unlock_lock m :
  m_locked m = false → set_locked false (set_locked true m) = m.
Proof. destruct m as [c l calls]. simpl. by intros ->. Qed.

Lemma run_lock_acquire {A : Type} now m (fn : prog A) :
  run now m (lock_acquire fn) =
    if m_locked m then (m, Blocked (lock_acquire fn))
    else and_release (run now (set_locked true m) fn).
Proof.
  unfold lock_acquire. simpl. destruct (m_locked m); [done|].
  apply run_release_after.
Qed.

(** ** The expiry check *)

Lemma run_isTokenExpired now m :
  run now m isTokenExpired = (m, Done (token_check (m_client m) now)).
Proof.
  unfold isTokenExpired, token_check. unmonad. simpl.
  by destruct (token (m_client m)).
Qed.

Lemma isTokenExpired_locked now m b l :
  run now m isTokenExpired = (m, Done (Ok b)) →
  run now (set_locked l m) isTokenExpired = (set_locked l m, Done (Ok b)).
Proof. rewrite !run_isTokenExpired. simpl. congruence. Qed.

Lemma js_ge_undefined a : js_ge a VUndef = false.
Proof.
  unfold js_ge. destruct (to_primitive a) eqn:E; simpl; try done;
    by destruct (to_number _).
Qed.

Lemma js_add_defined a b : js_add a b ≠ VUndef.
Proof.
  unfold js_add. destruct (is_str _ || is_str _); [done|].
  by destruct (to_number (to_primitive a)), (to_number (to_primitive b)).
Qed.



(** C4, as the code has it.  A client whose token is absent (built without
    a token, or after [setToken] of a falsy token such as [null] or
    [undefined]) holds the empty object, whose [expires_at] is
    [undefined]: the comparison is then false, and [isTokenExpired()]
    returns false at every date and under every leeway. *)
Theorem absent_token_not_expired now t cb opts c locked calls :
  truthy t = false →
  run now (mkMachine (new_Client t cb opts) locked calls) isTokenExpired
    = (mkMachine (new_Client t cb opts) locked calls, Done (Ok false)) ∧
  run now (mkMachine (setToken t c) locked calls) isTokenExpired
    = (mkMachine (setToken t c) locked calls, Done (Ok false)).
Proof.
  intros Ht.
  split; rewrite run_isTokenExpired; unfold token_check; simpl;
    unfold js_or; rewrite Ht; simpl; do 3 f_equal; apply js_ge_undefined.
Qed.

Lemma absent_token_not_expired_witness :
  run 1700000000000 (mkMachine (new_Client VNull None ∅) false []) isTokenExpired
    = (mkMachine (new_Client VNull None ∅) false [], Done (Ok false)) ∧
  run 1700000000000 (mkMachine (setToken VNull client_2000) false [])
      isTokenExpired
    = (mkMachine (setToken VNull client_2000) false [], Done (Ok false)).
Proof.
  apply (absent_token_not_expired 1700000000000 VNull None ∅
           client_2000 false []).
  reflexivity.
Defined.

(** A client built without a token: the check is not true at every date,
    it is false at this one. *)
Lemma absent_token_counterexample :
  (run 1700000000000 (mkMachine (new_Client VUndef None ∅) false [])
       isTokenExpired).2 = Done (Ok false) ∧
  ¬ (∀ now : Z,
       (run now (mkMachine (new_Client VUndef None ∅) false []) isTokenExpired).2
         = Done (Ok true)).
Proof.
  split; [by vm_compute|].
  intros H. specialize (H 1700000000000). vm_compute in H. discriminate.
Qed.

(** ** The constructor *)

(** C10.  The constructor stores [expiresIn = 300] whenever the option is
    absent or falsy, and [expiryLeeway = 5] whenever that option is absent
    or falsy: a given [0] is replaced by the default. *)
Theorem constructor_defaults t cb (opts : gmap string value) :
  (truthy (field opts "expiresIn") = false →
   options (new_Client t cb opts) !! "expiresIn" = Some (VNum 300)) ∧
  (truthy (field opts "expiryLeeway") = false →
   options (new_Client t cb opts) !! "expiryLeeway" = Some (VNum 5)).
Proof.
  split; intros Hf; simpl; unfold js_or; rewrite Hf.
  - rewrite lookup_insert_ne by done. by rewrite lookup_insert_eq.
  - by rewrite lookup_insert_eq.
Qed.

Lemma constructor_defaults_witness :
  options (new_Client VUndef None {[ "expiresIn" := VNum 0 ]}) !! "expiresIn"
    = Some (VNum 300) ∧
  options (new_Client VUndef None {[ "expiresIn" := VNum 0 ]}) !! "expiryLeeway"
    = Some (VNum 5).
Proof.
  destruct (constructor_defaults VUndef None {[ "expiresIn" := VNum 0 ]})
    as [H1 H2].
  split; [apply H1 | apply H2]; reflexivity.
Defined.

(** ** The interceptor without a refresh *)

Lemma run_authorize now m config :
  run now m (authorize config) = (m, Done (credentials_of (m_client m) config)).
Proof.
  unfold authorize, credentials_of. unmonad. simpl.
  by destruct (token (m_client m)).
Qed.

(** A token that passed the check can be read. *)
Lemma checked_credentials c now b config :
  token_check c now = Ok b →
  credentials_of c config =
    Ok (with_credentials config (get (token c) "instance_url")
          (get (token c) "token_type") (get (token c) "access_token")).
Proof.
  unfold token_check, credentials_of. by destruct (token c).
Qed.

(** C5.  When the token is expired and [options.autoRefresh] is falsy, the
    interceptor throws [TokenExpired]: the request is not dispatched, no
    call is sent to the token endpoint, and the client, its token included,
    is as before. *)
Theorem expired_without_autoRefresh jws_sign now m config :
  run now m isTokenExpired = (m, Done (Ok true)) →
  truthy (field (options (m_client m)) "autoRefresh") = false →
  let r := run now m (requestInterceptor jws_sign config) in
  r.2 = Done (Raise (new_error "TokenExpired" (VStr "Token is expired"))) ∧
  dispatched r.2 = false ∧
  m_calls r.1 = m_calls m ∧
  m_client r.1 = m_client m.
Proof.
  intros Hexp Hauto.
  assert (run now m (requestInterceptor jws_sign config) =
          (m, Done (Raise (new_error "TokenExpired" (VStr "Token is expired")))))
    as ->; [|done].
  unfold requestInterceptor. rewrite run_bind, Hexp, and_then_ok.
  rewrite run_bind. unmonad. simpl. by rewrite Hauto.
Qed.

Lemma expired_without_autoRefresh_witness :
  let r := run 3000000 manual_2000 (requestInterceptor no_signer ∅) in
  r.2 = Done (Raise (new_error "TokenExpired" (VStr "Token is expired"))) ∧
  dispatched r.2 = false ∧
  m_calls r.1 = m_calls manual_2000 ∧
  m_client r.1 = m_client manual_2000.
Proof.
  apply (expired_without_autoRefresh no_signer 3000000 manual_2000 ∅);
    reflexivity.
Defined.



(** ** Fetching a token *)

(** The first stretch of [fetchToken()]: either the signer throws, or one
    call is sent and the request waits for its answer. *)
Lemma run_fetchToken jws_sign now m :
  run now m (fetchToken jws_sign) =
    match request_of jws_sign now (m_client m) with
    | Raise e => (m, Done (Raise e))
    | Ok (url, body) =>
        (log_call url body m,
         InFlight (answered (js_add (VNum (floor_seconds now))
                               (field (options (m_client m)) "expiresIn"))))
    end.
Proof.
  unfold fetchToken, request_of. unmonad. simpl.
  by destruct (jws_sign _ _).
Qed.

Lemma fetchToken_in_flight jws_sign now m k :
  (run now m (fetchToken jws_sign)).2 = InFlight k →
  k = answered (js_add (VNum (floor_seconds now))
                  (field (options (m_client m)) "expiresIn")).
Proof.
  rewrite run_fetchToken.
  destruct (request_of _ _ _) as [[url body]|e]; simpl; congruence.
Qed.

(** The stretch after a fulfilled call whose [data] is an object. *)
Lemma run_answered_object now m expiresAt response cls data :
  get response "data" = VObj cls data →
  run now m (answered expiresAt (Resolved response)) =
    let token1 :=
      VObj cls (<["expires_at" := js_or (field data "expires_at") expiresAt]> data) in
    (update (setToken token1) m, Done (Ok token1)).
Proof.
  intros Hdata. unfold answered, on_response. unmonad. simpl.
  destruct response; simpl in *; try done.
  rewrite Hdata. simpl. done.
Qed.

(** Whatever else is answered, the stretch fails and writes nothing. *)
Lemma run_answered_other now m expiresAt o :
  (∀ response cls data,
     o = Resolved response → get response "data" ≠ VObj cls data) →
  ∃ e, run now m (answered expiresAt o) = (m, Done (Raise e)).
Proof.
  intros Hno. unfold answered. rewrite run_try_catch.
  assert (∃ e, run now m (match o with
                          | Resolved response => Ret response
                          | Rejected error => Throw error
                          end ≫= on_response expiresAt) = (m, Done (Raise e)))
    as [e ->].
  { destruct o as [response|error]; [|by eexists].
    unmonad. simpl. unfold on_response. unmonad.
    destruct response as [| | | | | |cls o]; simpl; try by eexists.
    unfold field.
    destruct (o !! "data") as [d|] eqn:Hd; simpl; [|by eexists].
    destruct d; simpl; try by eexists.
    exfalso. eapply (Hno _ _ _ eq_refl). simpl. unfold field. by rewrite Hd. }
  unfold or_else. simpl. unfold on_error.
  destruct (hasNestedProperty e _) as [[]|]; [|by eexists..].
  destruct (strict_eq_str _ _); by eexists.
Qed.

(** Either way the stretch ends, without touching the lock or the network:
    a token returned is the token stored, a failure stores nothing. *)
Lemma answered_settles now m expiresAt o :
  ∃ m' r, run now m (answered expiresAt o) = (m', Done r) ∧
          m_locked m' = m_locked m ∧ m_calls m' = m_calls m ∧
          match r with
          | Ok token1 => token (m_client m') = token1
          | Raise _ => m' = m
          end.
Proof.
  assert (∀ o', (∀ response cls data,
                   o' = Resolved response → get response "data" ≠ VObj cls data) →
          ∃ m' r, run now m (answered expiresAt o') = (m', Done r) ∧
            m_locked m' = m_locked m ∧ m_calls m' = m_calls m ∧
            match r with
            | Ok token1 => token (m_client m') = token1
            | Raise _ => m' = m
            end) as Hother.
  { intros o' Hno. destruct (run_answered_other now m expiresAt o' Hno) as [e ->].
    by eexists _, _. }
  destruct o as [response|error].
  - destruct (get response "data") as [| | | | | |cls data] eqn:Hdata;
      try (apply Hother; intros ??? [= <-]; congruence).
    rewrite (run_answered_object _ _ _ _ _ _ Hdata). by eexists _, _.
  - by apply Hother.
Qed.

(** C8.  A call of [fetchToken()] that fails leaves the stored token as it
    was: its first stretch never writes the token, and when the answer
    arrives the call always settles, writing the token exactly when it
    succeeds. *)
Theorem fetchToken_failure_keeps_token jws_sign now m :
  m_client (run now m (fetchToken jws_sign)).1 = m_client m ∧
  ∀ k, (run now m (fetchToken jws_sign)).2 = InFlight k →
    ∀ now' m1 o, ∃ r,
      (run now' m1 (k o)).2 = Done r ∧
      (∀ e, r = Raise e → m_client (run now' m1 (k o)).1 = m_client m1) ∧
      (∀ token1, r = Ok token1 →
                 token (m_client (run now' m1 (k o)).1) = token1).
Proof.
  split.
  - rewrite run_fetchToken. by destruct (request_of _ _ _) as [[url body]|e].
  - intros k Hk now' m1 o. rewrite (fetchToken_in_flight _ _ _ _ Hk).
    destruct (answered_settles now' m1
                (js_add (VNum (floor_seconds now))
                   (field (options (m_client m)) "expiresIn")) o)
      as (m' & r & -> & _ & _ & Hr).
    exists r. split; [done|]. split.
    + intros e ->. simpl. by rewrite Hr.
    + intros token1 ->. done.
Qed.

Lemma fetchToken_failure_keeps_token_witness :
  m_client (settle 3000500 (Rejected network_error)
              (run 3000000 auto_2000 (fetchToken sign_ok))).1
    = m_client auto_2000.
Proof.
  destruct (fetchToken_failure_keeps_token sign_ok 3000000 auto_2000)
    as [_ Hk].
  destruct (Hk (answered (VNum 3300)) eq_refl 3000500
              (run 3000000 auto_2000 (fetchToken sign_ok)).1
              (Rejected network_error))
    as (r & Hr & Hfail & _).
  apply (Hfail network_error).
  vm_compute in Hr. injection Hr as <-. reflexivity.
Defined.

(** C6, as the code has it.  After a successful [fetchToken()] the stored
    token is the [data] of the response with [expires_at] set: to the
    response's [expires_at] when that is truthy, and otherwise (none, or a
    falsy one such as [0]) to the date of the request in seconds plus the
    configured [expiresIn], computed before the call was sent. *)
Theorem fetchToken_sets_expires_at jws_sign now m k now' m1 o token1 :
  (run now m (fetchToken jws_sign)).2 = InFlight k →
  (run now' m1 (k o)).2 = Done (Ok token1) →
  ∃ response cls data,
    o = Resolved response ∧
    get response "data" = VObj cls data ∧
    token (m_client (run now' m1 (k o)).1) = token1 ∧
    get token1 "expires_at" ≠ VUndef ∧
    get token1 "expires_at" =
      if truthy (field data "expires_at") then field data "expires_at"
      else js_add (VNum (floor_seconds now))
                  (field (options (m_client m)) "expiresIn").
Proof.
  intros Hk Hok. rewrite (fetchToken_in_flight _ _ _ _ Hk) in *.
  set (expiresAt := js_add _ _) in *.
  assert (∃ response cls data,
            o = Resolved response ∧ get response "data" = VObj cls data)
    as (response & cls & data & -> & Hdata).
  { destruct o as [response|error].
    - destruct (get response "data") as [| | | | | |cls data] eqn:Hdata;
        try (destruct (run_answered_other now' m1 expiresAt (Resolved response))
               as [e He]; [intros ??? [= <-]; congruence|];
             rewrite He in Hok; discriminate).
      by eexists _, _, _.
    - destruct (run_answered_other now' m1 expiresAt (Rejected error))
        as [e He]; [done|]. rewrite He in Hok. discriminate. }
  exists response, cls, data.
  rewrite (run_answered_object _ _ _ _ _ _ Hdata) in *. simpl in *.
  injection Hok as <-. split_and!; try done.
  - simpl. unfold field at 1. rewrite lookup_insert_eq. simpl.
    unfold js_or. destruct (truthy (field data "expires_at")) eqn:Ht.
    + intros Hu. rewrite Hu in Ht. done.
    + apply js_add_defined.
  - simpl. unfold field at 1. by rewrite lookup_insert_eq.
Qed.

Lemma fetchToken_sets_expires_at_witness :
  ∃ token1,
    (settle 3000500 (Resolved response_without_expiry)
       (run 3000000 auto_2000 (fetchToken sign_ok))).2 = Done (Ok token1) ∧
    get token1 "expires_at" = VNum 3300.
Proof.
  eexists. split; [reflexivity|].
  destruct (fetchToken_sets_expires_at sign_ok 3000000 auto_2000
              (answered (VNum 3300)) 3000500
              (run 3000000 auto_2000 (fetchToken sign_ok)).1
              (Resolved response_without_expiry) _ eq_refl eq_refl)
    as (response & cls & data & Ho & Hdata & _ & _ & Hexp).
  injection Ho as <-. vm_compute in Hdata. injection Hdata as <- <-.
  exact Hexp.
Defined.

(** The response carries [expires_at: 0]; the token stored has
    [expires_at] 3300, the date of the request plus [expiresIn]. *)
Lemma fetchToken_falsy_expires_at_counterexample :
  let r := settle 3000500 (Resolved response_expiring_at_0)
             (run 3000000 auto_2000 (fetchToken sign_ok)) in
  dispatched r.2 = true ∧
  get (get response_expiring_at_0 "data") "expires_at" = VNum 0 ∧
  get (token (m_client r.1)) "expires_at" = VNum 3300 ∧
  get (token (m_client r.1)) "expires_at"
    ≠ get (get response_expiring_at_0 "data") "expires_at".
Proof. vm_compute. split_and!; done. Qed.

(** ** Failures of the token endpoint *)




(** C7, where the code departs from it.  When the call fails with a
    response whose body is [null], [hasNestedProperty] throws a
    [TypeError] inside the [.catch], and [fetchToken()] fails with that
    [TypeError] in place of the error of the transport. *)
Theorem null_body_masks_error now m expiresAt :
  run now m (answered expiresAt (Rejected error_with_null_body)) =
    (m, Done (Raise (type_error
       "Cannot read properties of null (reading 'hasOwnProperty')"))) ∧
  type_error "Cannot read properties of null (reading 'hasOwnProperty')"
    ≠ error_with_null_body ∧
  (settle 3000500 (Rejected error_with_null_body)
     (run 3000000 auto_2000 (fetchToken sign_ok))).2
    ≠ Done (Raise error_with_null_body).
Proof.
  split; [|split].
  - unfold answered. rewrite run_try_catch. unmonad.
    unfold or_else, on_error. cbn [run bind snd fst].
    by vm_compute (hasNestedProperty _ _).
  - by vm_compute.
  - by vm_compute.
Qed.

(** ** The interceptor under the lock *)

Lemma run_notify now m token1 :
  run now m (notify token1) = (m, Done (notified (m_client m) token1)).
Proof.
  unfold notify, notified. unmonad. destruct (truthy token1); [|done].
  simpl. destruct (onRefresh (m_client m)) as [f|]; [|done].
  by destruct (f token1).
Qed.

(** A request that finds the token expired while the lock is taken waits. *)
Lemma run_interceptor_waits jws_sign now m config :
  run now m isTokenExpired = (m, Done (Ok true)) →
  truthy (field (options (m_client m)) "autoRefresh") = true →
  m_locked m = true →
  run now m (requestInterceptor jws_sign config)
    = (m, Blocked (waiting jws_sign config)).
Proof.
  intros Hexp Hauto Hlock.
  unfold requestInterceptor. rewrite run_bind, Hexp, and_then_ok.
  unmonad. simpl. rewrite Hauto. unfold refresh_locked, lock_acquire.
  unmonad. simpl. by rewrite Hlock.
Qed.


(** Woken with the lock free while the token is valid, a waiting request
    sends nothing and returns its configuration with the stored token. *)
Lemma run_waiting_valid jws_sign now m config :
  m_locked m = false →
  run now m isTokenExpired = (m, Done (Ok false)) →
  run now m (waiting jws_sign config) =
    (m, Done (Ok (with_credentials config
                    (get (token (m_client m)) "instance_url")
                    (get (token (m_client m)) "token_type")
                    (get (token (m_client m)) "access_token")))).
Proof.
  intros Hlock Hvalid.
  unfold waiting, refresh_locked.
  do 2 rewrite run_bind. rewrite run_lock_acquire, Hlock.
  unfold refresh. rewrite run_bind, (isTokenExpired_locked _ _ _ _ Hvalid).
  rewrite and_then_ok. cbn [run mret prog_ret].
  rewrite and_release_done, (unlock_lock m Hlock), and_then_ok.
  rewrite run_notify. cbn [notified truthy]. rewrite and_then_ok.
  rewrite run_authorize. rewrite run_isTokenExpired in Hvalid.
  injection Hvalid as Hcheck.
  by rewrite (checked_credentials _ _ _ _ Hcheck).
Qed.

(** Woken with the lock free while the token is expired, it takes the lock
    and sends one call, unless the signer throws. *)
Lemma run_waiting_expired jws_sign now m config :
  m_locked m = false →
  run now m isTokenExpired = (m, Done (Ok true)) →
  run now m (waiting jws_sign config) =
    match request_of jws_sign now (m_client m) with
    | Raise e => (m, Done (Raise e))
    | Ok (url, body) =>
        (log_call url body (set_locked true m),
         InFlight (landing config
                     (js_add (VNum (floor_seconds now))
                        (field (options (m_client m)) "expiresIn"))))
    end.
Proof.
  intros Hlock Hexp.
  unfold waiting, refresh_locked.
  do 2 rewrite run_bind. rewrite run_lock_acquire, Hlock.
  unfold refresh. rewrite run_bind, (isTokenExpired_locked _ _ _ _ Hexp).
  rewrite and_then_ok. rewrite run_fetchToken. cbn [m_client set_locked].
  destruct (request_of _ _ _) as [[url body]|e].
  - by rewrite and_release_in_flight, !and_then_in_flight.
  - by rewrite and_release_done, (unlock_lock m Hlock), !and_then_raise.
Qed.

Lemma run_landing now m config expiresAt o :
  run now m (landing config expiresAt o) =
    and_then now (and_then now (and_release (run now m (answered expiresAt o)))
                    notify)
      (λ _, authorize config).
Proof.
  unfold landing. do 2 rewrite run_bind. by rewrite run_release_after.
Qed.


(** C2.  A request that found the token expired and waits for the lock
    (the lock is taken when it asks) holds the rest of the interceptor.
    When it gets the lock and the check under the lock is false, the token
    having been replaced meanwhile, the function under the lock returns
    [undefined] without calling [fetchToken()], whatever the signer would
    have done; the stretch leaves the machine as it is, no call sent, and
    returns the configuration with the token stored at that moment. *)
Theorem recheck_skips_fetch jws_sign config now0 m0 now m :
  run now0 m0 isTokenExpired = (m0, Done (Ok true)) →
  truthy (field (options (m_client m0)) "autoRefresh") = true →
  m_locked m0 = true →
  m_locked m = false →
  run now m isTokenExpired = (m, Done (Ok false)) →
  ∃ p,
    run now0 m0 (requestInterceptor jws_sign config) = (m0, Blocked p) ∧
    run now (set_locked true m) (refresh jws_sign)
      = (set_locked true m, Done (Ok VUndef)) ∧
    run now m p =
      (m, Done (Ok (with_credentials config
                      (get (token (m_client m)) "instance_url")
                      (get (token (m_client m)) "token_type")
                      (get (token (m_client m)) "access_token")))).
Proof.
  intros Hexp Hauto Hlock0 Hlock Hvalid.
  exists (waiting jws_sign config). split_and!.
  - by apply run_interceptor_waits.
  - unfold refresh.
    by rewrite run_bind, (isTokenExpired_locked _ _ _ _ Hvalid).
  - by apply run_waiting_valid.
Qed.

Lemma recheck_skips_fetch_witness :
  ∃ p,
    run 3000000 busy_2000 (requestInterceptor no_signer config_a)
      = (busy_2000, Blocked p) ∧
    run 3000600 (set_locked true refreshed_3300) (refresh no_signer)
      = (set_locked true refreshed_3300, Done (Ok VUndef)) ∧
    run 3000600 refreshed_3300 p =
      (refreshed_3300,
       Done (Ok (with_credentials config_a (VStr "https://y") (VStr "Bearer")
                   (VStr "new")))).
Proof.
  apply (recheck_skips_fetch no_signer config_a 3000000 busy_2000
           3000600 refreshed_3300); reflexivity.
Defined.

(** ** One call in flight at a time *)

Lemma calm_notify token1 : calm (notify token1).
Proof. intros now m. rewrite run_notify. by eexists _, _. Qed.

Lemma calm_authorize config : calm (authorize config).
Proof. intros now m. rewrite run_authorize. by eexists _, _. Qed.

Lemma and_then_calm {A B : Type} now m (x : result A) (f : A → prog B) :
  (∀ a, calm (f a)) →
  ∃ m' r, and_then now (m, Done x) f = (m', Done r) ∧
          m_locked m' = m_locked m ∧ m_calls m' = m_calls m.
Proof.
  intros Hf. destruct x as [a|e].
  - rewrite and_then_ok. apply Hf.
  - rewrite and_then_raise. by eexists _, _.
Qed.

(** After the lock is given back the request only calls back and returns. *)
Lemma released_then_returns now m (x : result value) config :
  ∃ m' r,
    and_then now (and_then now (and_release (m, Done x)) notify)
      (λ _, authorize config) = (m', Done r) ∧
    m_locked m' = false ∧ m_calls m' = m_calls m.
Proof.
  rewrite and_release_done.
  destruct (and_then_calm now (set_locked false m) x notify calm_notify)
    as (m1 & r1 & -> & Hl1 & Hc1).
  destruct (and_then_calm now m1 r1 (λ _, authorize config)
              (λ _, calm_authorize config))
    as (m2 & r2 & -> & Hl2 & Hc2).
  exists m2, r2. simpl in *. split; [done|]. split; congruence.
Qed.

Lemma landing_settles config expiresAt : settles (landing config expiresAt).
Proof.
  intros now m o. rewrite run_landing.
  destruct (answered_settles now m expiresAt o) as (m1 & r1 & -> & _ & Hc1 & _).
  destruct (released_then_returns now m1 r1 config) as (m2 & r2 & -> & Hl & Hc).
  exists m2, r2. split; [done|]. split; congruence.
Qed.

(** The function under the lock either returns at once or sends a call. *)
Lemma run_refresh jws_sign now m :
  (∃ r, run now m (refresh jws_sign) = (m, Done r)) ∨
  (∃ url body expiresAt,
     run now m (refresh jws_sign)
       = (log_call url body m, InFlight (answered expiresAt))).
Proof.
  unfold refresh. rewrite run_bind, run_isTokenExpired.
  destruct (token_check (m_client m) now) as [[]|e].
  - rewrite and_then_ok, run_fetchToken.
    destruct (request_of _ _ _) as [[url body]|e]; [right|left]; by eauto.
  - left. by eexists.
  - left. by eexists.
Qed.

Lemma waiting_waits jws_sign config : waits (waiting jws_sign config).
Proof.
  intros now m. destruct (m_locked m) eqn:Hlock.
  - unfold waiting, refresh_locked, lock_acquire. unmonad. simpl.
    by rewrite Hlock.
  - unfold waiting, refresh_locked.
    do 2 rewrite run_bind. rewrite run_lock_acquire, Hlock.
    destruct (run_refresh jws_sign now (set_locked true m))
      as [[r ->]|(url & body & expiresAt & ->)].
    + left. destruct (released_then_returns now (set_locked true m) r config)
        as (m2 & r2 & Heq & Hl & Hc). exists m2, r2. split; [exact Heq|done].
    + right. rewrite and_release_in_flight, !and_then_in_flight.
      eexists _, _. split; [done|]. split; [done|].
      apply (landing_settles config expiresAt).
Qed.

(** A stretch of the interceptor settles with the machine untouched, or is
    that of a waiting request. *)
Lemma interceptor_stretch jws_sign now m config :
  (∃ r, run now m (requestInterceptor jws_sign config) = (m, Done r)) ∨
  run now m (requestInterceptor jws_sign config)
    = run now m (waiting jws_sign config).
Proof.
  unfold requestInterceptor. rewrite run_bind, run_isTokenExpired.
  destruct (token_check (m_client m) now) as [[]|e].
  - rewrite and_then_ok. unmonad. simpl.
    destruct (truthy _); [by right|left; by eexists].
  - left. rewrite and_then_ok. cbn [mret prog_ret mbind prog_bind bind].
    rewrite run_authorize. by eexists.
  - left. by eexists.
Qed.









(** ** A round of refresh *)






(** * Further properties of the code *)

(** ** [hasNestedProperty] *)










(** ** How [fetchToken()] fails *)






Lemma on_error_type_error msg :
  on_error (type_error msg) = Throw (type_error msg).
Proof.
  unfold on_error, type_error, new_error. simpl. unfold has_own.
  by rewrite lookup_singleton_ne.
Qed.

Lemma run_on_response_malformed now m expiresAt response :
  (∀ cls data, get response "data" ≠ VObj cls data) →
  ∃ msg, run now m (on_response expiresAt response)
         = (m, Done (Raise (type_error msg))).
Proof.
  intros Hno. unfold on_response. unmonad.
  destruct response as [| | | | | |cls o]; simpl; try by eexists.
  unfold field. simpl in Hno. unfold field in Hno.
  destruct (o !! "data") as [d|] eqn:Hd; simpl; [|by eexists].
  destruct d; simpl; try by eexists.
  by edestruct Hno.
Qed.

(** X5.  A fulfilled call whose [data] is not an object (a text body, a
    number, [null], nothing) makes [fetchToken()] fail with a
    [TypeError]; nothing is stored. *)
Theorem malformed_response_fails now m expiresAt response :
  (∀ cls data, get response "data" ≠ VObj cls data) →
  ∃ msg, run now m (answered expiresAt (Resolved response))
         = (m, Done (Raise (type_error msg))).
Proof.
  intros Hno.
  destruct (run_on_response_malformed now m expiresAt response Hno)
    as [msg Hrun].
  exists msg. unfold answered. rewrite run_try_catch.
  cbn [mbind prog_bind bind]. rewrite Hrun. unfold or_else. cbn [fst snd].
  by rewrite on_error_type_error.
Qed.

Lemma malformed_response_fails_witness :
  ∃ msg, run 3000500 auto_2000 (answered (VNum 3300) (Resolved response_with_text))
         = (auto_2000, Done (Raise (type_error msg))).
Proof.
  apply (malformed_response_fails 3000500 auto_2000 (VNum 3300)
           response_with_text).
  intros cls data. by vm_compute.
Defined.

(** X6.  The token a successful [fetchToken()] stores and returns is the
    [data] of the response: every field but [expires_at] is the
    response's, whatever token was held before; the options and the
    callback of the client are untouched. *)
Theorem fetchToken_replaces_token jws_sign now m k now' m1 response cls data :
  (run now m (fetchToken jws_sign)).2 = InFlight k →
  get response "data" = VObj cls data →
  ∃ stored,
    run now' m1 (k (Resolved response))
      = (update (setToken (VObj cls stored)) m1, Done (Ok (VObj cls stored))) ∧
    token (m_client (update (setToken (VObj cls stored)) m1)) = VObj cls stored ∧
    options (m_client (update (setToken (VObj cls stored)) m1))
      = options (m_client m1) ∧
    onRefresh (m_client (update (setToken (VObj cls stored)) m1))
      = onRefresh (m_client m1) ∧
    (∀ key, key ≠ "expires_at" → stored !! key = data !! key).
Proof.
  intros Hk Hdata. rewrite (fetchToken_in_flight _ _ _ _ Hk).
  rewrite (run_answered_object _ _ _ _ _ _ Hdata). cbv zeta.
  eexists. split; [reflexivity|]. split_and!; try done.
  intros key Hkey. by rewrite lookup_insert_ne.
Qed.

Lemma fetchToken_replaces_token_witness :
  ∃ stored,
    settle 3000500 (Resolved response_without_expiry)
      (run 3000000 auto_2000 (fetchToken sign_ok))
      = (update (setToken (plain stored))
           (run 3000000 auto_2000 (fetchToken sign_ok)).1,
         Done (Ok (plain stored))) ∧
    (∀ key, key ≠ "expires_at" → stored !! key = data_without_expiry !! key).
Proof.
  destruct (fetchToken_replaces_token sign_ok 3000000 auto_2000
              (answered (VNum 3300)) 3000500
              (run 3000000 auto_2000 (fetchToken sign_ok)).1
              response_without_expiry "Object" data_without_expiry
              eq_refl eq_refl)
    as (stored & Hrun & _ & _ & _ & Hkeys).
  exists stored. split; [exact Hrun|exact Hkeys].
Defined.

(** ** What [fetchToken()] sends *)





(** ** A fetched token and the expiry check *)



(** X10.  For a numeric [expires_at] and leeway the check is monotone in
    time: a token reported expired at one date is reported expired at
    every later date, and one reported valid was valid at every earlier
    date. *)
Theorem expiry_is_monotone now now' m cls o (leeway expires_at : Z) :
  token (m_client m) = VObj cls o →
  o !! "expires_at" = Some (VNum expires_at) →
  options (m_client m) !! "expiryLeeway" = Some (VNum leeway) →
  now ≤ now' →
  (run now m isTokenExpired = (m, Done (Ok true)) →
   run now' m isTokenExpired = (m, Done (Ok true))) ∧
  (run now' m isTokenExpired = (m, Done (Ok false)) →
   run now m isTokenExpired = (m, Done (Ok false))).
Proof.
  intros Htok Hexp Hlee Hnow.
  assert (floor_seconds now ≤ floor_seconds now') as Hfloor.
  { unfold floor_seconds. by apply Z.div_le_mono. }
  assert (∀ t, run t m isTokenExpired
               = (m, Done (Ok (bool_decide (expires_at ≤ floor_seconds t + leeway)))))
    as Hrun.
  { intros t. rewrite run_isTokenExpired. unfold token_check.
    rewrite Htok. simpl. unfold field. by rewrite Hexp, Hlee. }
  rewrite !Hrun. split; intros [= Hb]; do 3 f_equal.
  - apply bool_decide_eq_true in Hb. apply bool_decide_eq_true. lia.
  - apply bool_decide_eq_false in Hb. apply bool_decide_eq_false. lia.
Qed.

Lemma expiry_is_monotone_witness :
  run 3000000 manual_2000 isTokenExpired = (manual_2000, Done (Ok true)) ∧
  run 1000000 manual_2000 isTokenExpired = (manual_2000, Done (Ok false)).
Proof.
  split.
  - eapply (expiry_is_monotone 1995000 3000000 manual_2000 "Object" _ 5 2000);
      first [reflexivity | lia].
  - eapply (expiry_is_monotone 1000000 1994000 manual_2000 "Object" _ 5 2000);
      first [reflexivity | lia].
Defined.

(** X11.  A token object without [expires_at], such as one handed to the
    constructor or to [setToken] from a response that has none, is never
    reported expired: at every date and under every option the interceptor
    returns the configuration with its credentials and sends nothing,
    [autoRefresh] or not. *)
Theorem token_without_expiry_never_refreshed jws_sign now m config cls o :
  token (m_client m) = VObj cls o →
  o !! "expires_at" = None →
  run now m isTokenExpired = (m, Done (Ok false)) ∧
  run now m (requestInterceptor jws_sign config)
    = (m, Done (Ok (with_credentials config (field o "instance_url")
                      (field o "token_type") (field o "access_token")))).
Proof.
  intros Htok Hnone.
  assert (run now m isTokenExpired = (m, Done (Ok false))) as Hvalid.
  { rewrite run_isTokenExpired. unfold token_check. rewrite Htok. simpl.
    unfold field at 2. rewrite Hnone. simpl.
    unfold expired_at. by rewrite js_ge_undefined. }
  split; [done|].
  unfold requestInterceptor. rewrite run_bind, Hvalid, and_then_ok.
  cbn [mret prog_ret mbind prog_bind bind]. rewrite run_authorize.
  unfold credentials_of. by rewrite Htok.
Qed.

Lemma token_without_expiry_never_refreshed_witness :
  run 9000000000000
      (mkMachine (new_Client token_without_expiry None auto_options) false [])
      (requestInterceptor sign_ok config_b)
    = (mkMachine (new_Client token_without_expiry None auto_options) false [],
       Done (Ok (with_credentials config_b (VStr "https://x") (VStr "Bearer")
                   (VStr "abc")))).
Proof.
  apply (token_without_expiry_never_refreshed sign_ok 9000000000000
           (mkMachine (new_Client token_without_expiry None auto_options)
              false [])
           config_b "Object" data_without_expiry); reflexivity.
Defined.

(** ** The constructor and [setToken] *)

Lemma truthy_js_or a b : truthy b = true → truthy (js_or a b) = true.
Proof. unfold js_or. by destruct (truthy a) eqn:Ha. Qed.

(** X12.  Whatever is given to the constructor, the client it builds holds
    a truthy token and truthy [expiresIn] and [expiryLeeway], so that
    [isTokenExpired()] never throws on it; an [expiresIn] or
    [expiryLeeway] that is truthy is stored as given, every other option
    is stored as given, and the callback is the one given. *)
Theorem constructor_invariants t cb (opts : gmap string value) :
  truthy (token (new_Client t cb opts)) = true ∧
  truthy (field (options (new_Client t cb opts)) "expiresIn") = true ∧
  truthy (field (options (new_Client t cb opts)) "expiryLeeway") = true ∧
  (∀ now, ∃ b, token_check (new_Client t cb opts) now = Ok b) ∧
  onRefresh (new_Client t cb opts) = cb ∧
  (truthy (field opts "expiresIn") = true →
   options (new_Client t cb opts) !! "expiresIn" = opts !! "expiresIn") ∧
  (truthy (field opts "expiryLeeway") = true →
   options (new_Client t cb opts) !! "expiryLeeway" = opts !! "expiryLeeway") ∧
  (∀ k, k ≠ "expiresIn" → k ≠ "expiryLeeway" →
        options (new_Client t cb opts) !! k = opts !! k).
Proof.
  assert (truthy (token (new_Client t cb opts)) = true) as Htok.
  { simpl. by apply truthy_js_or. }
  split_and!; try done.
  - simpl. unfold field at 1. rewrite lookup_insert_ne by done.
    rewrite lookup_insert_eq. simpl. by apply truthy_js_or.
  - simpl. unfold field at 1. rewrite lookup_insert_eq. simpl.
    by apply truthy_js_or.
  - intros now. unfold token_check.
    destruct (token (new_Client t cb opts)); try done; by eexists.
  - intros Ht. simpl. rewrite lookup_insert_ne by done.
    rewrite lookup_insert_eq. unfold js_or. rewrite Ht.
    unfold field in *. by destruct (opts !! "expiresIn").
  - intros Ht. simpl. rewrite lookup_insert_eq. unfold js_or. rewrite Ht.
    unfold field in *. by destruct (opts !! "expiryLeeway").
  - intros k H1 H2. simpl. by rewrite !lookup_insert_ne.
Qed.

Lemma constructor_invariants_witness :
  options (new_Client VUndef None {[ "expiresIn" := VNum 60 ]}) !! "expiresIn"
    = Some (VNum 60) ∧
  options (new_Client VUndef None auto_options) !! "tokenHost"
    = Some (VStr "https://test.salesforce.com").
Proof.
  split.
  - destruct (constructor_invariants VUndef None {[ "expiresIn" := VNum 60 ]})
      as (_ & _ & _ & _ & _ & Hin & _).
    rewrite Hin; reflexivity.
  - destruct (constructor_invariants VUndef None auto_options)
      as (_ & _ & _ & _ & _ & _ & _ & Hrest).
    rewrite Hrest; done.
Defined.

(** ** How an intercepted request fails *)

(** A woken request with the lock free, by what the check under the lock
    finds. *)
Lemma run_waiting_unlocked jws_sign now m config :
  m_locked m = false →
  run now m (waiting jws_sign config) =
    match token_check (m_client m) now with
    | Ok true =>
        match request_of jws_sign now (m_client m) with
        | Raise e => (m, Done (Raise e))
        | Ok (url, body) =>
            (log_call url body (set_locked true m),
             InFlight (landing config
                         (js_add (VNum (floor_seconds now))
                            (field (options (m_client m)) "expiresIn"))))
        end
    | Ok false => (m, Done (credentials_of (m_client m) config))
    | Raise e => (m, Done (Raise e))
    end.
Proof.
  intros Hlock.
  destruct (token_check (m_client m) now) as [[]|e] eqn:Hcheck.
  - apply run_waiting_expired; [done|]. by rewrite run_isTokenExpired, Hcheck.
  - rewrite run_waiting_valid;
      [|done|by rewrite run_isTokenExpired, Hcheck].
    by rewrite (checked_credentials _ _ _ config Hcheck).
  - unfold waiting, refresh_locked.
    do 2 rewrite run_bind. rewrite run_lock_acquire, Hlock.
    unfold refresh. rewrite run_bind, run_isTokenExpired.
    cbn [m_client set_locked]. rewrite Hcheck.
    by rewrite and_then_raise, and_release_done, (unlock_lock m Hlock),
      !and_then_raise.
Qed.

Lemma run_waiting_locked jws_sign now m config :
  m_locked m = true →
  run now m (waiting jws_sign config) = (m, Blocked (waiting jws_sign config)).
Proof.
  intros Hlock. pose proof (waiting_waits jws_sign config now m) as Hw.
  by rewrite Hlock in Hw.
Qed.

(** A stretch of the interceptor that ends with a call in flight holds
    [landing], with the expiry computed at that date. *)
Lemma interceptor_in_flight jws_sign now m config K :
  (run now m (requestInterceptor jws_sign config)).2 = InFlight K →
  K = landing config (js_add (VNum (floor_seconds now))
                        (field (options (m_client m)) "expiresIn")).
Proof.
  destruct (interceptor_stretch jws_sign now m config) as [[r ->]| ->];
    [done|].
  destruct (m_locked m) eqn:Hlock.
  - by rewrite run_waiting_locked.
  - rewrite run_waiting_unlocked by done.
    destruct (token_check _ _) as [[]|e]; try done.
    destruct (request_of _ _ _) as [[url body]|e]; simpl; congruence.
Qed.

(** X13.  When the refresh of a request succeeds and its [onRefresh]
    callback throws, the request fails with what the callback threw and
    is not dispatched; the new token is stored all the same and the lock
    is free, so the requests that follow use the new token. *)
Theorem callback_failure_keeps_new_token
    jws_sign now m config K now' m1 response cls data f e :
  (run now m (requestInterceptor jws_sign config)).2 = InFlight K →
  get response "data" = VObj cls data →
  onRefresh (m_client m1) = Some f →
  (∀ t, f t = Some e) →
  ∃ stored,
    run now' m1 (K (Resolved response))
      = (set_locked false (update (setToken (VObj cls stored)) m1),
         Done (Raise e)) ∧
    (∀ key, key ≠ "expires_at" → stored !! key = data !! key).
Proof.
  intros HK Hdata Hcb Hthrows. rewrite (interceptor_in_flight _ _ _ _ _ HK).
  rewrite run_landing, (run_answered_object _ _ _ _ _ _ Hdata). cbv zeta.
  rewrite and_release_done, and_then_ok, run_notify.
  unfold notified. cbn [truthy m_client set_locked update setToken onRefresh].
  rewrite Hcb, Hthrows, and_then_raise.
  eexists. split; [reflexivity|].
  intros key Hkey. by rewrite lookup_insert_ne.
Qed.

Lemma callback_failure_keeps_new_token_witness :
  ∃ stored,
    settle 3000500 (Resolved response_without_expiry)
      (run 3000000 (mkMachine client_with_failing_callback false [])
         (requestInterceptor sign_ok config_a))
    = (set_locked false
         (update (setToken (plain stored))
            (run 3000000 (mkMachine client_with_failing_callback false [])
               (requestInterceptor sign_ok config_a)).1),
       Done (Raise (VStr "disk full"))) ∧
    (∀ key, key ≠ "expires_at" → stored !! key = data_without_expiry !! key).
Proof.
  apply (callback_failure_keeps_new_token sign_ok 3000000
           (mkMachine client_with_failing_callback false []) config_a
           (landing config_a (VNum 3300)) 3000500
           (run 3000000 (mkMachine client_with_failing_callback false [])
              (requestInterceptor sign_ok config_a)).1
           response_without_expiry "Object" data_without_expiry
           failing_callback (VStr "disk full"));
    reflexivity.
Defined.



(** ** The worlds of a client *)

Lemma count_blocked_app l t :
  count_blocked (l ++ [t]) = (count_blocked l + blocked_weight t)%nat.
Proof.
  unfold count_blocked. induction l as [|t' l IH]; csimpl; [lia|].
  rewrite IH. lia.
Qed.

Lemma count_blocked_insert l i old t :
  l !! i = Some old →
  (count_blocked (<[i := t]> l) + blocked_weight old
   = count_blocked l + blocked_weight t)%nat.
Proof.
  unfold count_blocked.
  revert i. induction l as [|t' l IH]; intros [|i] Hi; csimpl in *; try done.
  - injection Hi as ->. lia.
  - specialize (IH i Hi). lia.
Qed.

Lemma waiting_tidy jws_sign now m config :
  tidy jws_sign m (run now m (waiting jws_sign config)).
Proof.
  unfold tidy, blocked_weight.
  destruct (m_locked m) eqn:Hlock.
  - rewrite run_waiting_locked by done. split_and!; simpl; [done| |lia].
    by exists config.
  - rewrite run_waiting_unlocked by done.
    destruct (token_check _ _) as [[]|e];
      [|split_and!; simpl; [done|done|lia]..].
    destruct (request_of _ _ _) as [[url body]|e].
    + split_and!; simpl; [done| |rewrite length_app; simpl; lia].
      by eexists _, _.
    + split_and!; simpl; [done|done|lia].
Qed.

Lemma interceptor_tidy jws_sign now m config :
  tidy jws_sign m (run now m (requestInterceptor jws_sign config)).
Proof.
  destruct (interceptor_stretch jws_sign now m config) as [[r ->]| ->].
  - unfold tidy, blocked_weight. split_and!; simpl; [done|done|lia].
  - apply waiting_tidy.
Qed.

(** When the answer arrives the request settles, the lock is given back,
    and the client is as it was or has a new token. *)
Lemma landing_outcome now m config expiresAt o :
  ∃ r,
    run now m (landing config expiresAt o) = (set_locked false m, Done r) ∨
    ∃ t, run now m (landing config expiresAt o)
         = (set_locked false (update (setToken t) m), Done r).
Proof.
  assert (∀ M (x : result value), ∃ r,
            and_then now (and_then now (M, Done x) notify)
              (λ _, authorize config) = (M, Done r)) as Hrest.
  { intros M [a|e]; [|by eexists].
    rewrite and_then_ok, run_notify.
    destruct (notified _ _) as [[]|e]; [|by eexists].
    rewrite and_then_ok, run_authorize. by eexists. }
  rewrite run_landing.
  destruct o as [response|error].
  - destruct (get response "data") as [| | | | | |cls data] eqn:Hdata.
    all: try (destruct (run_answered_other now m expiresAt (Resolved response))
                as [e ->]; [intros ??? [= <-]; congruence|];
              rewrite and_release_done;
              destruct (Hrest (set_locked false m) (Raise e)) as [r ->];
              exists r; by left).
    rewrite (run_answered_object _ _ _ _ _ _ Hdata). cbv zeta.
    rewrite and_release_done.
    edestruct Hrest as [r ->]. exists r. right. by eexists.
  - destruct (run_answered_other now m expiresAt (Rejected error))
      as [e ->]; [done|].
    rewrite and_release_done.
    destruct (Hrest (set_locked false m) (Raise e)) as [r ->].
    exists r. by left.
Qed.

Lemma orderly_start jws_sign c : orderly jws_sign c (start c).
Proof.
  unfold orderly, start, count_blocked. simpl.
  split; [by apply Forall_nil_2|]. split; [done|]. split; [done|]. lia.
Qed.

Lemma orderly_step jws_sign c w e :
  orderly jws_sign c w → orderly jws_sign c (step jws_sign w e).
Proof.
  intros (Hshape & Hopts & Hcb & Hcount).
  destruct e as [now config|now i|now i o]; unfold step; cbv zeta.
  - destruct (interceptor_tidy jws_sign now (w_machine w) config)
      as (Hclient & Hr & Hcalls).
    split_and!; cbn [w_machine w_tasks].
    + apply Forall_app. split; [done|]. by constructor.
    + by rewrite Hclient.
    + by rewrite Hclient.
    + rewrite count_blocked_app, length_app. cbn [length]. lia.
  - destruct (w_tasks w !! i) as [[r|p|k]|] eqn:Hi; try done.
    destruct (Forall_lookup_1 _ _ _ _ Hshape Hi) as [config ->].
    destruct (waiting_tidy jws_sign now (w_machine w) config)
      as (Hclient & Hr & Hcalls).
    pose proof (count_blocked_insert (w_tasks w) i _
                  (run now (w_machine w) (waiting jws_sign config)).2 Hi)
      as Hins.
    unfold blocked_weight at 1 in Hins. cbn [is_blocked] in Hins.
    split_and!; cbn [w_machine w_tasks].
    + by apply Forall_insert.
    + by rewrite Hclient.
    + by rewrite Hclient.
    + rewrite length_insert. lia.
  - destruct (w_tasks w !! i) as [[r|p|k]|] eqn:Hi; try done.
    destruct (Forall_lookup_1 _ _ _ _ Hshape Hi) as (config & expiresAt & ->).
    pose proof (count_blocked_insert (w_tasks w) i
                  (InFlight (landing config expiresAt))) as Hins.
    destruct (landing_outcome now (w_machine w) config expiresAt o)
      as [r [-> | [t ->]]];
      specialize (Hins (Done r) Hi); unfold blocked_weight in Hins;
      simpl in Hins;
      (split_and!; cbn [w_machine w_tasks fst snd];
       [by apply Forall_insert|done|done
       |rewrite length_insert; cbn [m_calls set_locked update]; lia]).
Qed.

Lemma orderly_steps jws_sign c evs w :
  orderly jws_sign c w → orderly jws_sign c (steps jws_sign w evs).
Proof.
  revert w. induction evs as [|e evs IH]; intros w Hw; simpl; [done|].
  apply IH. by apply orderly_step.
Qed.




(** X17.  In every world reached from a client at rest, issuing a request
    or waking one leaves the client as it is: the token changes only when
    an answer of the token endpoint arrives; and the options and the
    callback never change. *)
Theorem client_changes_only_on_answers jws_sign c evs e :
  (is_issue e = true ∨ ∃ now i, e = Wake now i) →
  m_client (w_machine (step jws_sign (steps jws_sign (start c) evs) e))
    = m_client (w_machine (steps jws_sign (start c) evs)) ∧
  options (m_client (w_machine (steps jws_sign (start c) evs))) = options c ∧
  onRefresh (m_client (w_machine (steps jws_sign (start c) evs))) = onRefresh c.
Proof.
  intros He.
  destruct (orderly_steps jws_sign c evs (start c) (orderly_start jws_sign c))
    as (Hshape & Hopts & Hcb & _).
  split; [|done].
  set (w := steps jws_sign (start c) evs) in *.
  destruct e as [now config|now i|now i o]; unfold step; cbv zeta.
  - apply interceptor_tidy.
  - destruct (w_tasks w !! i) as [[r|p|k]|] eqn:Hi; try done.
    destruct (Forall_lookup_1 _ _ _ _ Hshape Hi) as [config ->].
    apply waiting_tidy.
  - by destruct He as [|(? & ? & ?)].
Qed.

Lemma client_changes_only_on_answers_witness :
  m_client (w_machine (step sign_ok after_failure (Wake 3000501 1)))
    = m_client (w_machine after_failure) ∧
  options (m_client (w_machine after_failure)) = options client_2000 ∧
  onRefresh (m_client (w_machine after_failure)) = onRefresh client_2000.
Proof.
  apply (client_changes_only_on_answers sign_ok client_2000
           (take 3 failed_round) (Wake 3000501 1)).
  right. by exists 3000501, 1%nat.
Defined.

Lemma requests_are_issued jws_sign evs w :
  length (w_tasks (steps jws_sign w evs))
  = (length (w_tasks w) + issued evs)%nat.
Proof.
  unfold steps. revert w. induction evs as [|e evs IH]; intros w.
  - unfold issued. simpl. lia.
  - cbn [foldl]. rewrite IH. unfold issued. rewrite filter_cons.
    destruct e as [now config|now i|now i o]; unfold step; cbv zeta.
    + cbn [w_tasks is_issue]. rewrite length_app.
      destruct (decide _); [|done]. cbn [length]. lia.
    + destruct (decide _); [done|].
      destruct (w_tasks w !! i) as [[r|p|k]|]; cbn [w_tasks];
        rewrite ?length_insert; lia.
    + destruct (decide _); [done|].
      destruct (w_tasks w !! i) as [[r|p|k]|]; cbn [w_tasks];
        rewrite ?length_insert; lia.
Qed.

(** X18.  Through the interceptor a client never sends more calls to the
    token endpoint than requests were issued to it: each request sends at
    most one, and one that waits for the lock has sent none. *)
Theorem calls_at_most_requests jws_sign c evs :
  (length (m_calls (w_machine (steps jws_sign (start c) evs)))
   + count_blocked (w_tasks (steps jws_sign (start c) evs))
   ≤ issued evs)%nat.
Proof.
  destruct (orderly_steps jws_sign c evs (start c) (orderly_start jws_sign c))
    as (_ & _ & _ & Hcount).
  rewrite requests_are_issued in Hcount. simpl in Hcount. lia.
Qed.

(** X19.  After a refresh that failed, the token is still the expired one
    and the lock is free: the next waiting request that is woken checks
    again, finds the token expired and sends a call of its own, holding
    the lock in its turn. *)
Theorem waiter_retries_after_failure
    jws_sign now m config K k now1 m1 o e now2 config' url body :
  (run now m (requestInterceptor jws_sign config)).2 = InFlight K →
  (run now m (fetchToken jws_sign)).2 = InFlight k →
  (run now1 m1 (k o)).2 = Done (Raise e) →
  token_check (m_client m1) now2 = Ok true →
  request_of jws_sign now2 (m_client m1) = Ok (url, body) →
  ∃ K',
    run now2 (run now1 m1 (K o)).1 (waiting jws_sign config')
      = (log_call url body (set_locked true m1), InFlight K') ∧
    m_client (run now1 m1 (K o)).1 = m_client m1.
Proof.
  intros HK Hk Hfail Hcheck Hreq.
  assert (run now1 m1 (K o) = (set_locked false m1, Done (Raise e))) as ->.
  { rewrite (interceptor_in_flight _ _ _ _ _ HK).
    rewrite (fetchToken_in_flight _ _ _ _ Hk) in Hfail.
    rewrite run_landing.
    destruct (answered_settles now1 m1
                (js_add (VNum (floor_seconds now))
                   (field (options (m_client m)) "expiresIn")) o)
      as (m' & r & Hrun & _ & _ & Hr).
    rewrite Hrun in *. simpl in Hfail. injection Hfail as ->. subst m'.
    by rewrite and_release_done, !and_then_raise. }
  cbn [fst]. rewrite run_waiting_unlocked by done.
  cbn [m_client set_locked]. rewrite Hcheck, Hreq.
  eexists. split; [|done]. by destruct m1.
Qed.

Lemma waiter_retries_after_failure_witness :
  ∃ K',
    run 3000501
        (settle 3000500 (Rejected network_error)
           (run 3000000 auto_2000 (requestInterceptor sign_ok config_a))).1
        (waiting sign_ok config_b)
    = (log_call token_endpoint_call.1 token_endpoint_call.2
         (set_locked true
            (run 3000000 auto_2000 (requestInterceptor sign_ok config_a)).1),
       InFlight K').
Proof.
  destruct (waiter_retries_after_failure sign_ok 3000000 auto_2000 config_a
              (landing config_a (VNum 3300)) (answered (VNum 3300)) 3000500
              (run 3000000 auto_2000 (requestInterceptor sign_ok config_a)).1
              (Rejected network_error) network_error 3000501 config_b
              token_endpoint_call.1 token_endpoint_call.2
              eq_refl eq_refl eq_refl eq_refl eq_refl)
    as (K' & Hrun & _).
  exists K'. exact Hrun.
Defined.
